(** * index.js: the ingestion service, embedded and verified

    The service is one Express application with three routes and a
    catch-all, in front of a PostgreSQL pool:

      - [GET /health]   runs [SELECT 1] through the pool,
      - [GET /]         sends a fixed greeting,
      - [POST /ingest]  [auth] middleware, then the handler: [ipAllowed],
                        required fields, and a BEGIN / upsert / insert /
                        COMMIT block with ROLLBACK in its [catch],
      - anything else   404.

    The embedding follows the file top to bottom.  JavaScript values are an
    inductive type with their truthiness; strings are sequences of 8-bit code
    units (header values reach Node decoded as Latin-1); handlers are
    computations in a small monad that threads the store and records whether
    the handler answered or its promise rejected. *)

From Stdlib Require Import String Ascii List Bool Arith ZArith Lia Permutation.
Import ListNotations.
Open Scope string_scope.

Set Warnings "-register-all".

(** ** JavaScript values *)

Module Js.

(** A parsed JSON value, plus [undefined] for an absent property.  Numbers are
    kept as integers: the handler only ever tests a number for being zero. *)
Inductive JsValue : Type :=
| JsUndefined
| JsNull
| JsBool (b : bool)
| JsNumber (n : Z)
| JsString (s : string)
| JsArray (items : list JsValue)
| JsObject (props : list (string * JsValue)).

(** [Boolean(v)], the test behind [!v], [a || b] and [filter(Boolean)]. *)
Definition truthy (v : JsValue) : bool :=
  match v with
  | JsUndefined | JsNull => false
  | JsBool b => b
  | JsNumber n => negb (Z.eqb n 0)
  | JsString s => negb (String.eqb s "")
  | JsArray _ | JsObject _ => true
  end.

(** [a || b] *)
Definition js_or (a b : JsValue) : JsValue := if truthy a then a else b.

Fixpoint lookup_prop (k : string) (props : list (string * JsValue)) : JsValue :=
  match props with
  | [] => JsUndefined
  | (k', v) :: rest => if String.eqb k k' then v else lookup_prop k rest
  end.

(** [o.k] for a property name [k] that no prototype defines (the handler reads
    [userId], [username], [displayName] and [message] only): the own property
    of an object, [undefined] on arrays and primitives. *)
Definition get (o : JsValue) (k : string) : JsValue :=
  match o with
  | JsObject props => lookup_prop k props
  | _ => JsUndefined
  end.

(** Structural equality of values. *)
Fixpoint eqb (a b : JsValue) {struct a} : bool :=
  match a, b with
  | JsUndefined, JsUndefined => true
  | JsNull, JsNull => true
  | JsBool x, JsBool y => Bool.eqb x y
  | JsNumber x, JsNumber y => Z.eqb x y
  | JsString x, JsString y => String.eqb x y
  | JsArray xs, JsArray ys =>
      (fix items (xs ys : list JsValue) {struct xs} : bool :=
         match xs, ys with
         | [], [] => true
         | x :: xs', y :: ys' => eqb x y && items xs' ys'
         | _, _ => false
         end) xs ys
  | JsObject ps, JsObject qs =>
      (fix props (ps qs : list (string * JsValue)) {struct ps} : bool :=
         match ps, qs with
         | [], [] => true
         | (k, x) :: ps', (k', y) :: qs' =>
             String.eqb k k' && eqb x y && props ps' qs'
         | _, _ => false
         end) ps qs
  | _, _ => false
  end.

End Js.
Import Js.

(** ** String primitives used by [auth] and [ipAllowed] *)

Module Str.

(** [s.startsWith(p)] *)
Definition startsWith (p s : string) : bool := String.prefix p s.

(** [s.slice(n)] for [n >= 0]: the string without its first [n] units. *)
Fixpoint slice (n : nat) (s : string) : string :=
  match n, s with
  | O, _ => s
  | S _, EmptyString => EmptyString
  | S n', String _ rest => slice n' rest
  end.

(** [s.split(c)] for a one-character separator; never the empty list. *)
Fixpoint split (c : ascii) (s : string) : list string :=
  match s with
  | EmptyString => [EmptyString]
  | String a rest =>
      if Ascii.eqb a c then EmptyString :: split c rest
      else match split c rest with
           | [] => [String a EmptyString]
           | piece :: pieces => String a piece :: pieces
           end
  end.

(** White space of [String.prototype.trim] among the code units 0..255:
    TAB, LF, VT, FF, CR, SPACE and NBSP. *)
Definition is_space (a : ascii) : bool :=
  let n := nat_of_ascii a in
  ((9 <=? n) && (n <=? 13) || (n =? 32) || (n =? 160))%nat.

Fixpoint trimStart (s : string) : string :=
  match s with
  | EmptyString => EmptyString
  | String a rest => if is_space a then trimStart rest else s
  end.

Fixpoint trimEnd (s : string) : string :=
  match s with
  | EmptyString => EmptyString
  | String a rest =>
      match trimEnd rest with
      | EmptyString => if is_space a then EmptyString else String a EmptyString
      | kept => String a kept
      end
  end.

(** [s.trim()] *)
Definition trim (s : string) : string := trimEnd (trimStart s).

(** [xs[0]] on a list of strings ([split] never yields one without). *)
Definition first (xs : list string) : string := hd EmptyString xs.

(** [list.includes(x)] *)
Definition includes (xs : list string) (x : string) : bool :=
  existsb (String.eqb x) xs.

(** [list.filter(Boolean)] on strings: drops the empty ones. *)
Definition nonempty (xs : list string) : list string :=
  filter (fun s => negb (String.eqb s "")) xs.

(** [s || d] on an optional string: [undefined] and [''] both give way. *)
Definition or_else (s : option string) (d : option string) : option string :=
  match s with
  | Some (String _ _) => s
  | _ => d
  end.

Definition or_empty (s : option string) : string :=
  match s with
  | Some t => t
  | None => EmptyString
  end.

(** ASCII lower-casing, for the router's case-insensitive paths. *)
Definition lower (a : ascii) : ascii :=
  let n := nat_of_ascii a in
  if ((65 <=? n) && (n <=? 90))%nat then ascii_of_nat (n + 32) else a.

Fixpoint lowercase (s : string) : string :=
  match s with
  | EmptyString => EmptyString
  | String a rest => String (lower a) (lowercase rest)
  end.

End Str.

(** ** The store behind [pool]

    The two tables as the statements of the handler see them, and the
    PostgreSQL session of the pool's idle client.  A request handled on its
    own gets that one client for each of its queries, so its statements run
    on a single session; that sequential case is what is modelled, not the
    interleaving of concurrent requests over several pooled clients.  A query
    that fails makes [pool.query] release its client with the error, and the
    pool then discards that client: whatever transaction it had open is gone
    and the next query runs on a fresh session.

    Rows have the columns the statements name and record the parameter values
    handed to the driver; [users.id] is compared on those values, which is
    the store's comparison when identifiers are strings.  A table is a bag of
    rows: the order of the lists is the model's own and means nothing.
    [clock] is what [NOW()] reads; the service never sets it. *)

Module Pg.

Record UserRow : Type := mkUser {
  id : JsValue;
  username : JsValue;
  display_name : JsValue
}.

Record MessageRow : Type := mkMessage {
  user_id : JsValue;
  message : JsValue;
  ts : nat
}.

Record Tables : Type := mkTables {
  users : list UserRow;
  messages : list MessageRow
}.

(** State of the session: no transaction, or an open one with its working
    copy of the tables. *)
Inductive Session : Type :=
| Idle
| InTx (work : Tables).

Record Db : Type := mkDb {
  committed : Tables;
  session : Session;
  clock : nat
}.

(** The six statements index.js sends, with their parameters. *)
Inductive Statement : Type :=
| SELECT_1
| BEGIN
| UPSERT_USER (p1 p2 p3 : JsValue)
| INSERT_MESSAGE (p1 p2 : JsValue)
| COMMIT
| ROLLBACK.

(** [INSERT INTO users (id, username, display_name) VALUES ($1, $2, $3)
     ON CONFLICT (id) DO UPDATE SET username = EXCLUDED.username,
                                    display_name = EXCLUDED.display_name] *)
Fixpoint upsert_user (p1 p2 p3 : JsValue) (us : list UserRow) : list UserRow :=
  match us with
  | [] => [mkUser p1 p2 p3]
  | u :: rest =>
      if Js.eqb (id u) p1 then mkUser (id u) p2 p3 :: rest
      else u :: upsert_user p1 p2 p3 rest
  end.

(** [INSERT INTO messages (user_id, message, ts) VALUES ($1, $2, NOW())] *)
Definition insert_message (p1 p2 : JsValue) (now : nat) (ms : list MessageRow)
  : list MessageRow :=
  ms ++ [mkMessage p1 p2 now].

(** Effect of a data statement on the tables it runs against. *)
Definition write (st : Statement) (now : nat) (t : Tables) : Tables :=
  match st with
  | UPSERT_USER p1 p2 p3 => mkTables (upsert_user p1 p2 p3 (users t)) (messages t)
  | INSERT_MESSAGE p1 p2 => mkTables (users t) (insert_message p1 p2 now (messages t))
  | _ => t
  end.

(** A statement that succeeds.  Outside a transaction a statement commits
    by itself; BEGIN inside one and COMMIT/ROLLBACK outside one only raise a
    warning. *)
Definition accept (st : Statement) (d : Db) : Db :=
  match session d, st with
  | Idle, BEGIN => mkDb (committed d) (InTx (committed d)) (clock d)
  | Idle, _ => mkDb (write st (clock d) (committed d)) Idle (clock d)
  | InTx work, COMMIT => mkDb work Idle (clock d)
  | InTx _, ROLLBACK => mkDb (committed d) Idle (clock d)
  | InTx work, _ => mkDb (committed d) (InTx (write st (clock d) work)) (clock d)
  end.

(** A statement that fails changes no table, and its client is discarded
    with the transaction it had open: the session that serves the next query
    is a fresh one. *)
Definition reject (d : Db) : Db := mkDb (committed d) Idle (clock d).

End Pg.
Import Pg.

(** ** Asynchronous handlers

    A handler runs against the world: the store and the outcomes the
    environment has in stock for the coming [pool.query] calls ([true]: the
    returned promise rejects, for a reason of the server or of the
    connection).  It either returns a value or throws. *)

Record World : Type := mkWorld {
  db : Db;
  faults : list bool
}.

Inductive Outcome (A : Type) : Type :=
| Returned (a : A)
| Thrown.
Arguments Returned {A} a.
Arguments Thrown {A}.

Definition Async (A : Type) : Type := World -> Outcome A * World.

Definition ret {A} (a : A) : Async A := fun w => (Returned a, w).

Definition throw {A} : Async A := fun w => (Thrown, w).

Definition bind {A B} (m : Async A) (k : A -> Async B) : Async B :=
  fun w =>
    match m w with
    | (Returned a, w') => k a w'
    | (Thrown, w') => (Thrown, w')
    end.

(** [try { body } catch (e) { handler }]: what the body did to the world
    before it threw stays done. *)
Definition try_catch {A} (body handler : Async A) : Async A :=
  fun w =>
    match body w with
    | (Thrown, w') => handler w'
    | done => done
    end.

Declare Scope async_scope.
Delimit Scope async_scope with async.
Notation "x <- m ;; k" := (bind m (fun x => k))
  (at level 61, m at next level, right associativity) : async_scope.
Notation "m ;; k" := (bind m (fun _ => k))
  (at level 61, right associativity) : async_scope.
Notation "'try' b 'catch' h" := (try_catch b h)
  (at level 62, b at level 61, h at level 61) : async_scope.

(** [await pool.query(st)] *)
Definition pool_query (st : Statement) : Async unit :=
  fun w =>
    let later := tl (faults w) in
    if hd false (faults w)
    then (Thrown, mkWorld (reject (db w)) later)
    else (Returned tt, mkWorld (accept st (db w)) later).

(** ** Requests, responses and configuration *)

(** Methods of the requests that reach the routes.  The middleware mounted
    with [app.use] above them (body parser, helmet, morgan, cors) has run by
    then; cors answers OPTIONS requests itself. *)
Inductive Method : Type := GET | HEAD | POST | PUT | PATCH | DELETE.

Definition Method_eqb (a b : Method) : bool :=
  match a, b with
  | GET, GET | HEAD, HEAD | POST, POST
  | PUT, PUT | PATCH, PATCH | DELETE, DELETE => true
  | _, _ => false
  end.

(** What the routes read of [req]: method, path name, the two headers,
    [req.socket.remoteAddress] and the parsed [req.body]. *)
Record Request : Type := mkRequest {
  method : Method;
  path : string;
  authorization : option string;
  x_forwarded_for : option string;
  remoteAddress : option string;
  body : JsValue
}.

Inductive Body : Type :=
| Json (v : JsValue)
| Text (s : string).

Record Response : Type := mkResponse {
  status : nat;
  payload : Body
}.

(** [res.status(code).json(v)], and [res.json(v)], [res.send(text)] with the
    default status. *)
Definition status_json (code : nat) (v : JsValue) : Response := mkResponse code (Json v).
Definition json (v : JsValue) : Response := mkResponse 200 (Json v).
Definition send (text : string) : Response := mkResponse 200 (Text text).

(** [process.env.API_TOKEN] and [process.env.ALLOW_IPS]. *)
Record Config : Type := mkConfig {
  API_TOKEN : option string;
  ALLOW_IPS : option string
}.

(** The response bodies of index.js. *)
Definition unauthorized : Response :=
  status_json 401 (JsObject [("error", JsString "unauthorized")]).
Definition forbidden_ip : Response :=
  status_json 403 (JsObject [("error", JsString "forbidden_ip")]).
Definition missing_fields : Response :=
  status_json 400
    (JsObject [("error", JsString "missing fields");
               ("required", JsArray [JsString "userId"; JsString "username";
                                     JsString "message"])]).
Definition server_error : Response :=
  status_json 500 (JsObject [("error", JsString "server_error")]).
Definition db_unreachable : Response :=
  status_json 500 (JsObject [("ok", JsBool false); ("error", JsString "db_unreachable")]).
Definition ok_true : Response := json (JsObject [("ok", JsBool true)]).
Definition not_found : Response :=
  status_json 404 (JsObject [("error", JsString "not_found")]).
Definition greeting : Response := send "API de seguridad Roblox corriendo 🚀".

(** ** [auth] *)

(** A middleware either answers or calls [next()]. *)
Inductive Handled : Type :=
| Respond (r : Response)
| Next.

(** [!API_TOKEN] *)
Definition no_secret (secret : option string) : bool :=
  match secret with
  | Some (String _ _) => false
  | _ => true
  end.

(** [token !== API_TOKEN] *)
Definition differs (token : string) (secret : option string) : bool :=
  match secret with
  | Some s => negb (String.eqb token s)
  | None => true
  end.

(** [h.startsWith('Bearer ') ? h.slice(7) : ''] on
    [h = req.headers.authorization || ''] *)
Definition bearer_token (header : option string) : string :=
  let h := Str.or_empty header in
  if Str.startsWith "Bearer " h then Str.slice 7 h else "".

Definition auth (cfg : Config) (req : Request) : Handled :=
  let token := bearer_token (authorization req) in
  if no_secret (API_TOKEN cfg) || differs token (API_TOKEN cfg)
  then Respond unauthorized
  else Next.

(** ** [ipAllowed] *)

Definition allow_list (cfg : Config) : list string :=
  Str.nonempty (map Str.trim (Str.split "," (Str.or_empty (ALLOW_IPS cfg)))).

(** [(req.headers['x-forwarded-for'] || req.socket.remoteAddress || '')
       .split(',')[0].trim()] *)
Definition client_ip (req : Request) : string :=
  Str.trim (Str.first (Str.split ","
    (Str.or_empty (Str.or_else (x_forwarded_for req) (remoteAddress req))))).

Definition ipAllowed (cfg : Config) (req : Request) : bool :=
  let list := allow_list cfg in
  if (length list =? 0)%nat then true
  else Str.includes list (client_ip req).

(** ** The route handlers *)

Open Scope async_scope.

(** [app.get('/health', ...)] *)
Definition health (req : Request) : Async Response :=
  try (pool_query SELECT_1 ;; ret ok_true)
  catch (ret db_unreachable).

(** [app.get('/', ...)] *)
Definition root (req : Request) : Async Response := ret greeting.

(** [const { userId, username, displayName, message } = v]: a TypeError on
    [undefined] and [null], the four properties otherwise. *)
Definition destructure (v : JsValue)
  : Async (JsValue * JsValue * JsValue * JsValue) :=
  match v with
  | JsUndefined | JsNull => throw
  | _ => ret (get v "userId", get v "username", get v "displayName", get v "message")
  end.

(** The [try { ... } catch (e) { ... }] block of the ingestion handler
    ([console.error(e)] leaves no trace in the world and is left out). *)
Definition transaction (userId username displayName message : JsValue)
  : Async Response :=
  try (pool_query BEGIN ;;
       pool_query (UPSERT_USER userId username (js_or displayName JsNull)) ;;
       pool_query (INSERT_MESSAGE userId message) ;;
       pool_query COMMIT ;;
       ret ok_true)
  catch (pool_query ROLLBACK ;;
         ret server_error).

(** The handler of [app.post('/ingest', auth, ...)]. *)
Definition ingest (cfg : Config) (req : Request) : Async Response :=
  if negb (ipAllowed cfg req) then ret forbidden_ip
  else
    fields <- destructure (js_or (body req) (JsObject [])) ;;
    let '(userId, username, displayName, message) := fields in
    if negb (truthy userId) || negb (truthy username) || negb (truthy message)
    then ret missing_fields
    else transaction userId username displayName message.

(** ** Routing *)

(** A route registered for GET also serves HEAD; otherwise the methods must
    agree. *)
Definition method_matches (route m : Method) : bool :=
  match route, m with
  | GET, HEAD => true
  | _, _ => Method_eqb route m
  end.

(** Express matches route paths ignoring case and one optional trailing
    slash. *)
Fixpoint strip_slash (s : string) : string :=
  match s with
  | EmptyString => EmptyString
  | String a EmptyString => if Ascii.eqb a "/" then EmptyString else s
  | String a rest => String a (strip_slash rest)
  end.

Definition path_matches (route p : string) : bool :=
  let q := Str.lowercase p in
  let base := strip_slash (Str.lowercase route) in
  String.eqb q base || String.eqb q (base ++ "/").

Definition matches (m : Method) (route : string) (req : Request) : bool :=
  method_matches m (method req) && path_matches route (path req).

(** [app.get('/health')], [app.get('/')], [app.post('/ingest', auth, ...)] and
    the final [app.use] in registration order. *)
Definition app (cfg : Config) (req : Request) : Async Response :=
  if matches GET "/health" req then health req
  else if matches GET "/" req then root req
  else if matches POST "/ingest" req then
    match auth cfg req with
    | Respond r => ret r
    | Next => ingest cfg req
    end
  else ret not_found.

(** Requests served one after the other, each to its end before the next
    starts; a handler that throws leaves its request to the framework and
    does not stop the service. *)
Fixpoint serve (cfg : Config) (reqs : list Request) (w : World)
  : list (Outcome Response) * World :=
  match reqs with
  | [] => ([], w)
  | req :: rest =>
      let (o, w') := app cfg req w in
      let (os, w'') := serve cfg rest w' in
      (o :: os, w'')
  end.

Close Scope async_scope.

(** ** Notions the statements below use *)

(** The request is one the [POST /ingest] route serves. *)
Definition is_ingest (req : Request) : Prop := matches POST "/ingest" req = true.

(** The request is one the [GET /health] route serves. *)
Definition is_health (req : Request) : Prop := matches GET "/health" req = true.

(** The body as the handler reads it, and its four fields. *)
Definition field (req : Request) (name : string) : JsValue := get (body req) name.

(** No transaction is left open on the session: the state between two
    requests. *)
Definition quiescent (d : Db) : Prop :=
  match session d with
  | InTx _ => False
  | _ => True
  end.

(** Rows of [users] whose key is [uid]. *)
Definition rows_of (uid : JsValue) (us : list UserRow) : list UserRow :=
  filter (fun u => Js.eqb (id u) uid) us.

(** The primary key of [users]: no two rows with one [id]. *)
Definition primary_key (t : Tables) : Prop := NoDup (map id (users t)).


(** The tables once the two statements of an ingestion have been applied. *)
Definition ingested (userId username displayName message : JsValue) (now : nat)
  (t : Tables) : Tables :=
  mkTables (upsert_user userId username (js_or displayName JsNull) (users t))
           (insert_message userId message now (messages t)).


(** The address of a request as the specification words it: the first entry
    of the forwarded-for header when the header is present, the peer address
    otherwise. *)
Definition spec_address (req : Request) : string :=
  match x_forwarded_for req with
  | Some h => Str.trim (Str.first (Str.split "," h))
  | None => Str.or_empty (remoteAddress req)
  end.

(** The same with the header counted only when it is not empty, and the peer
    address read the way the header is. *)
Definition effective_address (req : Request) : string :=
  match x_forwarded_for req with
  | Some (String a h) => Str.trim (Str.first (Str.split "," (String a h)))
  | _ => Str.trim (Str.first (Str.split "," (Str.or_empty (remoteAddress req))))
  end.

(** Sample configuration, requests and worlds. *)
Module Sample.

Definition secret : string := "s3cret".
Definition open_cfg : Config := mkConfig (Some secret) None.
Definition listed_cfg : Config := mkConfig (Some secret) (Some "10.0.0.1, 10.0.0.2").

Definition hello : JsValue :=
  JsObject [("userId", JsString "42"); ("username", JsString "alice");
            ("message", JsString "hello")].
Definition hi_again : JsValue :=
  JsObject [("userId", JsString "42"); ("username", JsString "alice2");
            ("displayName", JsString "Alice"); ("message", JsString "hi again")].
Definition only_id : JsValue := JsObject [("userId", JsString "42")].

Definition post (auth_header xff : option string) (peer : string) (b : JsValue) : Request :=
  mkRequest POST "/ingest" auth_header xff (Some peer) b.
Definition good (b : JsValue) : Request :=
  post (Some "Bearer s3cret") None "10.0.0.1" b.

Definition empty_db : Db := mkDb (mkTables [] []) Idle 0.
Definition calm : World := mkWorld empty_db [].

End Sample.

(** ** The requests each route serves, spelled out *)

(** The methods agree, a GET route serving HEAD as well, and the path is the
    route's up to letter case and one trailing slash. *)
Definition served_by_health (req : Request) : Prop :=
  (method req = GET \/ method req = HEAD) /\
  (Str.lowercase (path req) = "/health" \/ Str.lowercase (path req) = "/health/").

Definition served_by_root (req : Request) : Prop :=
  (method req = GET \/ method req = HEAD) /\
  (Str.lowercase (path req) = "/" \/ Str.lowercase (path req) = "").

Definition served_by_ingest (req : Request) : Prop :=
  method req = POST /\
  (Str.lowercase (path req) = "/ingest" \/ Str.lowercase (path req) = "/ingest/").

(** Method and path are, to the letter, none of [GET /health], [GET /] and
    [POST /ingest]. *)
Definition literally_unmatched (req : Request) : Prop :=
  (method req, path req) <> (GET, "/health") /\
  (method req, path req) <> (GET, "/") /\
  (method req, path req) <> (POST, "/ingest").

(** ** The [origin] option handed to cors at start-up *)

(** [origin: true] (any origin is reflected) or an array of origins. *)
Inductive CorsOrigin : Type :=
| AnyOrigin
| Origins (allowed : list string).

(** [ALLOW_ORIGIN === '*' ? true : ALLOW_ORIGIN.split(',').map(s => s.trim())]
    on [ALLOW_ORIGIN = process.env.ALLOW_ORIGIN || '*']. *)
Definition cors_origin (env : option string) : CorsOrigin :=
  let ALLOW_ORIGIN := Str.or_empty (Str.or_else env (Some "*")) in
  if String.eqb ALLOW_ORIGIN "*" then AnyOrigin
  else Origins (map Str.trim (Str.split "," ALLOW_ORIGIN)).

(** ** Notions of the further properties *)

(** The character occurs in the string. *)
Fixpoint mentions (c : ascii) (s : string) : bool :=
  match s with
  | EmptyString => false
  | String a rest => Ascii.eqb a c || mentions c rest
  end.

(** Number of occurrences of the character. *)
Fixpoint occurrences (c : ascii) (s : string) : nat :=
  match s with
  | EmptyString => 0
  | String a rest => (if Ascii.eqb a c then 1 else 0) + occurrences c rest
  end.

(** Nothing but white space and commas. *)
Fixpoint blank (s : string) : bool :=
  match s with
  | EmptyString => true
  | String a rest => (Str.is_space a || Ascii.eqb a ",") && blank rest
  end.

(** The outcome is the answer 200 [{"ok":true}]. *)
Definition answered_ok (o : Outcome Response) : bool :=
  match o with
  | Returned (mkResponse code (Json v)) =>
      Nat.eqb code 200 && Js.eqb v (JsObject [("ok", JsBool true)])
  | _ => false
  end.



(** * Properties *)

(** ** Strings and values *)

Example split_ips :
  Str.split "," "10.0.0.1, 10.0.0.2,,x" = ["10.0.0.1"; " 10.0.0.2"; ""; "x"].
Proof. reflexivity. Qed.

Example split_empty : Str.split "," "" = [""].
Proof. reflexivity. Qed.

Example trim_both : Str.trim "  10.0.0.2 " = "10.0.0.2".
Proof. reflexivity. Qed.

Example slice_bearer : Str.slice 7 "Bearer s3cret" = "s3cret".
Proof. reflexivity. Qed.

Lemma startsWith_app (p t : string) : Str.startsWith p (p ++ t) = true.
Proof.
  unfold Str.startsWith.
  induction p as [|a p IH]; simpl.
  - now destruct t.
  - destruct (ascii_dec a a) as [_|ne]; [exact IH | now elim ne].
Qed.

Lemma startsWith_inv (p s : string) :
  Str.startsWith p s = true -> exists t, s = p ++ t.
Proof.
  unfold Str.startsWith. revert s.
  induction p as [|a p IH]; intros s H.
  - now exists s.
  - destruct s as [|b s]; simpl in H; [discriminate|].
    destruct (ascii_dec a b) as [->|]; [|discriminate].
    destruct (IH _ H) as [t ->]. now exists t.
Qed.

Lemma slice_app (p t : string) : Str.slice (String.length p) (p ++ t) = t.
Proof.
  induction p as [|a p IH]; simpl; [now destruct t | exact IH].
Qed.

Lemma bearer_token_of (t : string) : bearer_token (Some ("Bearer " ++ t)) = t.
Proof.
  unfold bearer_token. cbn [Str.or_empty].
  rewrite startsWith_app. exact (slice_app "Bearer " t).
Qed.

Lemma bearer_token_other (h : string) :
  (forall t, h <> "Bearer " ++ t) -> bearer_token (Some h) = "".
Proof.
  intros no. unfold bearer_token. cbn [Str.or_empty].
  destruct (Str.startsWith "Bearer " h) eqn:E; [|reflexivity].
  destruct (startsWith_inv _ _ E) as [t ->]. now elim (no t).
Qed.

Lemma eqb_eq (a b : JsValue) : Js.eqb a b = true -> a = b.
Proof.
  revert a b. fix IH 1.
  intros [| |x|x|x|xs|ps] [| |y|y|y|ys|qs]; simpl; try discriminate; intros H;
    try reflexivity.
  - now apply Bool.eqb_prop in H; subst.
  - now apply Z.eqb_eq in H; subst.
  - now apply String.eqb_eq in H; subst.
  - f_equal. revert ys H.
    induction xs as [|x xs IHxs]; intros [|y ys] H; try discriminate; [reflexivity|].
    apply andb_prop in H as [H1 H2].
    f_equal; [exact (IH _ _ H1) | exact (IHxs _ H2)].
  - f_equal. revert qs H.
    induction ps as [|[k x] ps IHps]; intros [|[k' y] qs] H; try discriminate;
      [reflexivity|].
    apply andb_prop in H as [H12 H3]. apply andb_prop in H12 as [H1 H2].
    apply String.eqb_eq in H1. subst k'.
    f_equal; [f_equal; exact (IH _ _ H2) | exact (IHps _ H3)].
Qed.

Lemma eqb_refl (a : JsValue) : Js.eqb a a = true.
Proof.
  revert a. fix IH 1.
  intros [| |x|x|x|xs|ps]; simpl; try reflexivity.
  - now destruct x.
  - apply Z.eqb_refl.
  - apply String.eqb_refl.
  - induction xs as [|x xs IHxs]; [reflexivity|].
    now rewrite (IH x), IHxs.
  - induction ps as [|[k x] ps IHps]; [reflexivity|].
    now rewrite String.eqb_refl, (IH x), IHps.
Qed.

Lemma eqb_neq (a b : JsValue) : a <> b -> Js.eqb a b = false.
Proof.
  intros ne. destruct (Js.eqb a b) eqn:E; [|reflexivity].
  now elim ne; apply eqb_eq.
Qed.

(** [req.body || {}] is never [undefined] or [null], so the destructuring of
    the handler always yields the four fields of the body. *)
Lemma destructure_guarded (b : JsValue) (w : World) :
  destructure (js_or b (JsObject [])) w =
  (Returned (get b "userId", get b "username", get b "displayName", get b "message"), w).
Proof.
  destruct b as [| |x|n|s|xs|ps]; try reflexivity.
  - now destruct x.
  - unfold js_or; simpl. now destruct (Z.eqb n 0).
  - now destruct s.
Qed.

(** ** Routing *)

Lemma is_ingest_method (req : Request) : is_ingest req -> method req = POST.
Proof.
  unfold is_ingest, matches. intros H. apply andb_prop in H as [H _].
  now destruct (method req).
Qed.

Lemma app_ingest (cfg : Config) (req : Request) :
  is_ingest req ->
  app cfg req =
  match auth cfg req with
  | Respond r => ret r
  | Next => ingest cfg req
  end.
Proof.
  intros H. pose proof (is_ingest_method _ H) as M.
  unfold app. unfold is_ingest in H. rewrite H.
  unfold matches at 1 2. now rewrite M.
Qed.

Lemma app_health (cfg : Config) (req : Request) :
  is_health req -> app cfg req = health req.
Proof. intros H. unfold app. unfold is_health in H. now rewrite H. Qed.

(** ** The credential check *)

Lemma auth_cases (cfg : Config) (req : Request) :
  auth cfg req = Respond unauthorized \/ auth cfg req = Next.
Proof. unfold auth. destruct (_ || _); auto. Qed.

Lemma auth_next_iff (cfg : Config) (req : Request) :
  auth cfg req = Next <->
  exists s, API_TOKEN cfg = Some s /\ s <> "" /\ bearer_token (authorization req) = s.
Proof.
  unfold auth. destruct (API_TOKEN cfg) as [[|a s]|]; simpl.
  - split; [discriminate|]. now intros (s & [= <-] & ne & _).
  - destruct (String.eqb_spec (bearer_token (authorization req)) (String a s)) as [e|ne];
      simpl.
    + split; [|reflexivity]. intros _. exists (String a s). now repeat split.
    + split; [discriminate|]. intros (s' & [= <-] & _ & e). now elim ne.
  - split; [discriminate|]. now intros (s & [=] & _).
Qed.

(** C2.  A [POST /ingest] request is answered 401 [{"error":"unauthorized"}],
    and the store is left as it was with no query issued, whenever no secret
    is configured, or the authorization header is missing, or the header does
    not carry a bearer-scheme token, or the token it carries is not the
    configured secret. *)
Theorem C2_unauthorized (cfg : Config) (req : Request) (w : World) :
  is_ingest req ->
  API_TOKEN cfg = None
  \/ authorization req = None
  \/ (exists h, authorization req = Some h /\ forall t, h <> "Bearer " ++ t)
  \/ (exists t, authorization req = Some ("Bearer " ++ t) /\ API_TOKEN cfg <> Some t) ->
  app cfg req w = (Returned unauthorized, w).
Proof.
  intros I bad. rewrite (app_ingest cfg req I).
  destruct (auth_cases cfg req) as [-> | passes]; [reflexivity|].
  exfalso. apply auth_next_iff in passes as (s & secret & nonempty & token).
  destruct bad as [none | [missing | [(h & hdr & other) | (t & hdr & wrong)]]].
  - congruence.
  - rewrite missing in token. now apply nonempty.
  - rewrite hdr, (bearer_token_other h other) in token. now apply nonempty.
  - rewrite hdr, bearer_token_of in token. congruence.
Qed.

Lemma C2_unauthorized_witness :
  app Sample.open_cfg (Sample.post (Some "Basic s3cret") None "10.0.0.1" Sample.hello)
      Sample.calm
  = (Returned unauthorized, Sample.calm).
Proof.
  apply C2_unauthorized; [reflexivity|].
  right; right; left. exists "Basic s3cret". split; [reflexivity|].
  intros t. discriminate.
Defined.

(** C9.  The verdict of the credential check depends on the authorization
    header and on the configured secret only: two requests with the same
    header under the same secret get the same verdict from [auth], and, sent
    to [POST /ingest], either both are answered 401 or neither is, whatever
    their bodies, addresses, allow lists and stores. *)
Theorem C9_auth_header_and_secret_only
  (cfg1 cfg2 : Config) (req1 req2 : Request) :
  authorization req1 = authorization req2 ->
  API_TOKEN cfg1 = API_TOKEN cfg2 ->
  auth cfg1 req1 = auth cfg2 req2 /\
  (is_ingest req1 -> is_ingest req2 ->
   forall w1 w2,
     app cfg1 req1 w1 = (Returned unauthorized, w1) <->
     app cfg2 req2 w2 = (Returned unauthorized, w2)).
Proof.
  intros H S.
  assert (E : auth cfg1 req1 = auth cfg2 req2) by (unfold auth; now rewrite H, S).
  split; [exact E|].
  intros I1 I2 w1 w2.
  rewrite (app_ingest cfg1 req1 I1), (app_ingest cfg2 req2 I2), <- E.
  destruct (auth_cases cfg1 req1) as [-> | ->]; [now split|].
  assert (N : forall cfg req w, fst (ingest cfg req w) <> Returned unauthorized).
  { clear. intros cfg req w. unfold ingest.
    destruct (negb (ipAllowed cfg req)); [discriminate|].
    unfold bind. rewrite destructure_guarded.
    destruct (_ || _); [discriminate|].
    unfold transaction, try_catch, bind.
    repeat match goal with
           | |- context [pool_query ?st ?w] =>
               destruct (pool_query st w) as [[[]|] ?]
           end; discriminate. }
  split; intros R; exfalso.
  - apply (N cfg1 req1 w1). now rewrite R.
  - apply (N cfg2 req2 w2). now rewrite R.
Qed.

Lemma C9_auth_header_and_secret_only_witness :
  auth Sample.open_cfg (Sample.good Sample.hello)
  = auth Sample.listed_cfg (Sample.post (Some "Bearer s3cret") (Some "6.6.6.6") "::1" JsNull).
Proof.
  apply (C9_auth_header_and_secret_only Sample.open_cfg Sample.listed_cfg);
    reflexivity.
Defined.

(** Validation answers before anything is sent to the store. *)
Lemma ingest_missing (cfg : Config) (req : Request) (w : World) :
  ipAllowed cfg req = true ->
  truthy (field req "userId") = false
  \/ truthy (field req "username") = false
  \/ truthy (field req "message") = false ->
  ingest cfg req w = (Returned missing_fields, w).
Proof.
  intros P M. unfold ingest. rewrite P. cbn [negb]. unfold bind.
  rewrite destructure_guarded.
  fold (field req "userId") (field req "username") (field req "message").
  destruct M as [-> | [-> | ->]]; cbn [negb orb]; rewrite ?orb_true_r; reflexivity.
Qed.

(** C5.  An authenticated, allow-listed [POST /ingest] request in which
    [userId], [username] or [message] is absent or falsy is answered 400 with
    [{"error":"missing fields","required":["userId","username","message"]}];
    the store is left as it was and no query is issued. *)
Theorem C5_missing_fields (cfg : Config) (req : Request) (w : World) :
  is_ingest req ->
  auth cfg req = Next ->
  ipAllowed cfg req = true ->
  truthy (field req "userId") = false
  \/ truthy (field req "username") = false
  \/ truthy (field req "message") = false ->
  app cfg req w = (Returned missing_fields, w).
Proof.
  intros I A P M. rewrite (app_ingest cfg req I), A.
  now apply ingest_missing.
Qed.

Lemma C5_missing_fields_witness :
  app Sample.open_cfg (Sample.good Sample.only_id) Sample.calm
  = (Returned missing_fields, Sample.calm).
Proof.
  apply C5_missing_fields; try reflexivity.
  right; left; reflexivity.
Defined.

(** C10.  When the parsed body of an authenticated, allow-listed
    [POST /ingest] request is [undefined] or [null], [req.body || {}] is the
    empty object, the destructuring returns four [undefined] fields instead
    of throwing, and the handler answers with the 400 missing-fields error. *)
Theorem C10_absent_body (cfg : Config) (req : Request) (w : World) :
  is_ingest req ->
  auth cfg req = Next ->
  ipAllowed cfg req = true ->
  body req = JsUndefined \/ body req = JsNull ->
  js_or (body req) (JsObject []) = JsObject [] /\
  destructure (js_or (body req) (JsObject [])) w
  = (Returned (JsUndefined, JsUndefined, JsUndefined, JsUndefined), w) /\
  app cfg req w = (Returned missing_fields, w).
Proof.
  intros I A P B. repeat split.
  - now destruct B as [-> | ->].
  - now destruct B as [-> | ->].
  - rewrite (app_ingest cfg req I), A. apply ingest_missing; [exact P|].
    left. unfold field. now destruct B as [-> | ->].
Qed.

Lemma C10_absent_body_witness :
  app Sample.open_cfg (Sample.good JsUndefined) Sample.calm
  = (Returned missing_fields, Sample.calm).
Proof.
  apply (C10_absent_body Sample.open_cfg (Sample.good JsUndefined) Sample.calm);
    try reflexivity.
  left; reflexivity.
Defined.

(** Without the [|| {}] guard the destructuring of an absent body throws. *)
Example destructure_unguarded (w : World) : destructure JsUndefined w = (Thrown, w).
Proof. reflexivity. Qed.


(** ** Order of the checks *)

(** The allow list is looked at only once the credential check has passed. *)
Lemma ingest_forbidden (cfg : Config) (req : Request) (w : World) :
  ipAllowed cfg req = false -> ingest cfg req w = (Returned forbidden_ip, w).
Proof. intros P. unfold ingest. now rewrite P. Qed.

(** C4, as amended.  On [POST /ingest] the credential check comes first, as
    route middleware: when it rejects, the answer is 401 whatever the address
    and the body.  The allow list comes second: when the credential check
    passes and the address is refused, the answer is 403 whatever the body.
    Field validation comes third.  None of the three touches the store. *)
Theorem C4_credential_then_allowlist_then_fields
  (cfg : Config) (req : Request) (w : World) :
  is_ingest req ->
  (auth cfg req <> Next -> app cfg req w = (Returned unauthorized, w)) /\
  (auth cfg req = Next -> ipAllowed cfg req = false ->
   app cfg req w = (Returned forbidden_ip, w)) /\
  (auth cfg req = Next -> ipAllowed cfg req = true ->
   truthy (field req "userId") = false
   \/ truthy (field req "username") = false
   \/ truthy (field req "message") = false ->
   app cfg req w = (Returned missing_fields, w)).
Proof.
  intros I. rewrite (app_ingest cfg req I). repeat split.
  - intros A. destruct (auth_cases cfg req) as [-> | N]; [reflexivity | now elim A].
  - intros -> P. now apply ingest_forbidden.
  - intros -> P M. now apply ingest_missing.
Qed.

Lemma C4_credential_then_allowlist_then_fields_witness :
  app Sample.listed_cfg (Sample.post None (Some "6.6.6.6") "6.6.6.6" Sample.hello)
      Sample.calm
  = (Returned unauthorized, Sample.calm).
Proof.
  apply (C4_credential_then_allowlist_then_fields Sample.listed_cfg
           (Sample.post None (Some "6.6.6.6") "6.6.6.6" Sample.hello) Sample.calm);
    [reflexivity | discriminate].
Defined.

(** C4, as stated, fails: a request without a token from an address outside
    the allow list is refused by the credential check with 401, not by the
    allow list with 403. *)
Lemma C4_counterexample :
  let req := Sample.post None (Some "6.6.6.6") "6.6.6.6" Sample.hello in
  is_ingest req /\
  ipAllowed Sample.listed_cfg req = false /\
  auth Sample.listed_cfg req = Respond unauthorized /\
  app Sample.listed_cfg req Sample.calm = (Returned unauthorized, Sample.calm) /\
  app Sample.listed_cfg req Sample.calm <> (Returned forbidden_ip, Sample.calm).
Proof. repeat split. discriminate. Qed.

(** ** The allow list *)

Lemma includes_In (xs : list string) (x : string) :
  Str.includes xs x = true <-> In x xs.
Proof.
  unfold Str.includes. rewrite existsb_exists. split.
  - intros (y & Hy & E). apply String.eqb_eq in E. now subst.
  - intros H. exists x. split; [exact H | apply String.eqb_refl].
Qed.

Lemma client_ip_effective (req : Request) : client_ip req = effective_address req.
Proof.
  unfold client_ip, effective_address.
  now destruct (x_forwarded_for req) as [[|a h]|].
Qed.

Lemma ipAllowed_iff (cfg : Config) (req : Request) :
  ipAllowed cfg req = true <->
  allow_list cfg = [] \/ In (effective_address req) (allow_list cfg).
Proof.
  unfold ipAllowed. rewrite client_ip_effective.
  destruct (allow_list cfg) as [|x xs] eqn:L; cbn [length Nat.eqb].
  - split; auto.
  - rewrite includes_In. split; [now right | now intros [|]].
Qed.

(** C6, as amended.  With an empty configured allow list an authenticated
    [POST /ingest] request is always allowed.  Otherwise the request is
    allowed exactly when its address is in the list, the address being the
    trimmed first comma-separated entry of the forwarded-for header when that
    header is present and not empty, and of the peer address otherwise; when
    the address is not in the list the answer is 403
    [{"error":"forbidden_ip"}] and the store is left as it was. *)
Theorem C6_allow_list (cfg : Config) (req : Request) (w : World) :
  is_ingest req ->
  auth cfg req = Next ->
  (allow_list cfg = [] -> ipAllowed cfg req = true) /\
  (allow_list cfg <> [] ->
   (ipAllowed cfg req = true <-> In (effective_address req) (allow_list cfg))) /\
  (allow_list cfg <> [] -> ~ In (effective_address req) (allow_list cfg) ->
   app cfg req w = (Returned forbidden_ip, w)).
Proof.
  intros I A. repeat split.
  - intros E. apply ipAllowed_iff. now left.
  - intros P. apply ipAllowed_iff in P as [E|P]; [contradiction | exact P].
  - intros P. apply ipAllowed_iff. now right.
  - intros NE out. rewrite (app_ingest cfg req I), A.
    apply ingest_forbidden.
    destruct (ipAllowed cfg req) eqn:P; [|reflexivity].
    apply ipAllowed_iff in P as [E|P]; [now elim NE | now elim out].
Qed.

Lemma C6_allow_list_witness :
  app Sample.listed_cfg
      (Sample.post (Some "Bearer s3cret") (Some " 6.6.6.6 , 10.0.0.1") "10.0.0.1" Sample.hello)
      Sample.calm
  = (Returned forbidden_ip, Sample.calm).
Proof.
  apply (C6_allow_list Sample.listed_cfg
           (Sample.post (Some "Bearer s3cret") (Some " 6.6.6.6 , 10.0.0.1") "10.0.0.1"
              Sample.hello) Sample.calm);
    try reflexivity; try discriminate.
  intros [E | [E | []]]; discriminate E.
Defined.

(** C6, as stated, fails on a forwarded-for header that is present and
    empty: its first entry is the empty string, which no allow list contains,
    yet the handler falls back on the peer address, lets the request through
    and writes its rows. *)
Lemma C6_counterexample :
  let req := Sample.post (Some "Bearer s3cret") (Some "") "10.0.0.1" Sample.hello in
  is_ingest req /\
  auth Sample.listed_cfg req = Next /\
  allow_list Sample.listed_cfg <> [] /\
  ~ In (spec_address req) (allow_list Sample.listed_cfg) /\
  fst (app Sample.listed_cfg req Sample.calm) = Returned ok_true /\
  committed (db (snd (app Sample.listed_cfg req Sample.calm)))
  = mkTables [mkUser (JsString "42") (JsString "alice") JsNull]
             [mkMessage (JsString "42") (JsString "hello") 0].
Proof.
  repeat split; try discriminate.
  intros [E | [E | []]]; discriminate E.
Qed.

Example blank_allow_list : allow_list (mkConfig None (Some " , ,")) = [].
Proof. reflexivity. Qed.

(** ** Health and the catch-all *)

(** C7.  [GET /health] needs no credentials: whatever the configuration and
    the headers of the request, the answer is 200 [{"ok":true}] when the
    [SELECT 1] query succeeds and 500 [{"ok":false,"error":"db_unreachable"}]
    when it fails. *)
Theorem C7_health (cfg : Config) (req : Request) (w : World) :
  is_health req ->
  (fst (pool_query SELECT_1 w) = Returned tt ->
   fst (app cfg req w) = Returned ok_true) /\
  (fst (pool_query SELECT_1 w) = Thrown ->
   fst (app cfg req w) = Returned db_unreachable) /\
  (forall cfg' req', is_health req' -> app cfg' req' w = app cfg req w).
Proof.
  intros I. rewrite (app_health cfg req I). unfold health, try_catch, bind.
  repeat split.
  - destruct (pool_query SELECT_1 w) as [[[]|] w']; [reflexivity | discriminate].
  - destruct (pool_query SELECT_1 w) as [[[]|] w']; [discriminate | reflexivity].
  - intros cfg' req' I'. now rewrite (app_health cfg' req' I').
Qed.

Lemma C7_health_witness :
  fst (app (mkConfig None None)
           (mkRequest GET "/health" None None (Some "10.0.0.9") JsUndefined)
           (mkWorld Sample.empty_db [true]))
  = Returned db_unreachable.
Proof.
  apply (C7_health (mkConfig None None)
           (mkRequest GET "/health" None None (Some "10.0.0.9") JsUndefined)
           (mkWorld Sample.empty_db [true])); reflexivity.
Defined.

Lemma method_matches_GET (m : Method) :
  method_matches GET m = true <-> m = GET \/ m = HEAD.
Proof.
  destruct m; cbn; split; intros H; auto; try discriminate H;
    destruct H as [H | H]; discriminate H.
Qed.

Lemma method_matches_POST (m : Method) :
  method_matches POST m = true <-> m = POST.
Proof. destruct m; cbn; split; intros H; auto; discriminate H. Qed.

Lemma path_matches_iff (route base p : string) :
  strip_slash (Str.lowercase route) = base ->
  path_matches route p = true <->
  Str.lowercase p = base \/ Str.lowercase p = base ++ "/".
Proof.
  intros <-. unfold path_matches.
  now rewrite orb_true_iff, !String.eqb_eq.
Qed.

Lemma served_by_health_iff (req : Request) :
  matches GET "/health" req = true <-> served_by_health req.
Proof.
  unfold matches, served_by_health.
  now rewrite andb_true_iff, method_matches_GET,
    (path_matches_iff "/health" "/health" _ eq_refl).
Qed.

Lemma served_by_root_iff (req : Request) :
  matches GET "/" req = true <-> served_by_root req.
Proof.
  unfold matches, served_by_root.
  rewrite andb_true_iff, method_matches_GET,
    (path_matches_iff "/" "" _ eq_refl).
  cbn [append]. tauto.
Qed.

Lemma served_by_ingest_iff (req : Request) :
  matches POST "/ingest" req = true <-> served_by_ingest req.
Proof.
  unfold matches, served_by_ingest.
  now rewrite andb_true_iff, method_matches_POST,
    (path_matches_iff "/ingest" "/ingest" _ eq_refl).
Qed.

Lemma not_true_false (b : bool) : b <> true -> b = false.
Proof. now destruct b. Qed.

(** C8, as amended.  A request that none of the three routes serves is
    answered 404 [{"error":"not_found"}] with the store untouched, a route
    serving a request when the methods agree (a GET route serving HEAD as
    well) and the request path is the route path up to letter case and one
    trailing slash. *)
Theorem C8_unserved_not_found (cfg : Config) (req : Request) (w : World) :
  ~ served_by_health req ->
  ~ served_by_root req ->
  ~ served_by_ingest req ->
  app cfg req w = (Returned not_found, w).
Proof.
  intros H R I. unfold app.
  rewrite (not_true_false _ (fun m => H (proj1 (served_by_health_iff req) m))).
  rewrite (not_true_false _ (fun m => R (proj1 (served_by_root_iff req) m))).
  now rewrite (not_true_false _ (fun m => I (proj1 (served_by_ingest_iff req) m))).
Qed.

Lemma C8_unserved_not_found_witness :
  app Sample.open_cfg (mkRequest GET "/nope" None None None JsUndefined) Sample.calm
  = (Returned not_found, Sample.calm).
Proof.
  apply C8_unserved_not_found.
  - intros [_ [E | E]]; discriminate E.
  - intros [_ [E | E]]; discriminate E.
  - intros [E _]; discriminate E.
Defined.

(** C8, as stated, fails: [HEAD /health], [GET /HEALTH/] and [POST /INGEST/]
    are, to the letter, none of the three method and path pairs, yet the
    first two are served by the health route and the third by the ingestion
    route, whose credential check answers 401. *)
Lemma C8_counterexample :
  let head := mkRequest HEAD "/health" None None None JsUndefined in
  let shout := mkRequest GET "/HEALTH/" None None None JsUndefined in
  let slash := mkRequest POST "/INGEST/" None None None JsUndefined in
  literally_unmatched head /\
  literally_unmatched shout /\
  literally_unmatched slash /\
  app Sample.open_cfg head Sample.calm = (Returned ok_true, Sample.calm) /\
  app Sample.open_cfg shout Sample.calm = (Returned ok_true, Sample.calm) /\
  app Sample.open_cfg slash Sample.calm = (Returned unauthorized, Sample.calm).
Proof. unfold literally_unmatched. repeat split; discriminate. Qed.

(** ** The two tables *)


Lemma upsert_user_ids (p1 p2 p3 : JsValue) (us : list UserRow) :
  map id (upsert_user p1 p2 p3 us)
  = if existsb (fun u => Js.eqb (id u) p1) us then map id us else (map id us ++ [p1])%list.
Proof.
  induction us as [|u us IH]; [reflexivity|].
  cbn [upsert_user existsb]. destruct (Js.eqb (id u) p1); [reflexivity|].
  cbn [map orb]. rewrite IH. now destruct (existsb _ us).
Qed.

(** The upsert keeps [users.id] a key. *)
Lemma upsert_user_key (p1 p2 p3 : JsValue) (us : list UserRow) :
  NoDup (map id us) -> NoDup (map id (upsert_user p1 p2 p3 us)).
Proof.
  intros K. rewrite upsert_user_ids.
  destruct (existsb _ us) eqn:E; [exact K|].
  apply NoDup_app; [exact K | repeat constructor; intros [] | ].
  intros x Hx [Ex | []]. subst x.
  apply in_map_iff in Hx as (u & Hu & Hin).
  assert (T : existsb (fun u => Js.eqb (id u) p1) us = true).
  { apply existsb_exists. exists u. split; [exact Hin|]. rewrite Hu. apply eqb_refl. }
  congruence.
Qed.


(** ** The transaction block *)

(** One [pool.query]: a pending fault makes it throw; otherwise the store
    moves on. *)
Lemma pool_query_run (st : Statement) (d : Db) (fs : list bool) :
  pool_query st (mkWorld d fs)
  = if hd false fs
    then (Thrown, mkWorld (reject d) (tl fs))
    else (Returned tt, mkWorld (accept st d) (tl fs)).
Proof. reflexivity. Qed.

Ltac run_queries :=
  unfold transaction, try_catch, bind, ret;
  repeat first
    [ rewrite pool_query_run
    | progress cbn [hd tl accept reject session committed clock db faults write]
    | match goal with
      | |- context [hd false ?l] => destruct l as [|[] ?]
      end ].

(** A transaction block that answers [{"ok":true}] from a quiescent session
    ran its four statements and committed both rows. *)
Lemma transaction_ok (u n d m : JsValue) (w w' : World) :
  quiescent (db w) ->
  transaction u n d m w = (Returned ok_true, w') ->
  db w' = mkDb (ingested u n d m (clock (db w)) (committed (db w))) Idle (clock (db w)).
Proof.
  destruct w as [[c s k] fs]. unfold quiescent. cbn [db session committed clock].
  destruct s as [|work]; [intros _ | intros []].
  run_queries; intros H; inversion H; reflexivity.
Qed.

(** All or nothing: unless the block answers [{"ok":true}], the committed
    tables are the ones it started from and no transaction stays open. *)
Lemma transaction_all_or_nothing (u n d m : JsValue) (w w' : World)
  (o : Outcome Response) :
  quiescent (db w) ->
  transaction u n d m w = (o, w') ->
  o <> Returned ok_true ->
  committed (db w') = committed (db w) /\ quiescent (db w').
Proof.
  destruct w as [[c s k] fs]. unfold quiescent. cbn [db session committed clock].
  destruct s as [|work]; [intros _ | intros []].
  run_queries; intros H; inversion H; subst; intros ne;
    solve [now elim ne | split; [reflexivity | exact I]].
Qed.

(** The insert rejecting after BEGIN and the upsert went through: the catch
    block sends ROLLBACK; the 500 answer is reached only if that query does
    not reject in turn. *)
Lemma transaction_insert_rejected (u n d m : JsValue) (c : Tables) (k : nat)
  (fs : list bool) :
  transaction u n d m (mkWorld (mkDb c Idle k) (false :: false :: true :: fs))
  = if hd false fs
    then (Thrown, mkWorld (mkDb c Idle k) (tl fs))
    else (Returned server_error, mkWorld (mkDb c Idle k) (tl fs)).
Proof. run_queries; reflexivity. Qed.

(** ** Ingestion, request by request *)

Lemma ingest_run (cfg : Config) (req : Request) (w : World) :
  ipAllowed cfg req = true ->
  truthy (field req "userId") = true ->
  truthy (field req "username") = true ->
  truthy (field req "message") = true ->
  ingest cfg req w
  = transaction (field req "userId") (field req "username")
      (field req "displayName") (field req "message") w.
Proof.
  intros P U N M. unfold ingest. rewrite P. cbn [negb]. unfold bind.
  rewrite destructure_guarded.
  fold (field req "userId") (field req "username") (field req "displayName")
    (field req "message").
  now rewrite U, N, M.
Qed.





(** The two scenarios of the specification, run one after the other. *)
Example scenario_alice :
  serve Sample.open_cfg [Sample.good Sample.hello; Sample.good Sample.hi_again] Sample.calm
  = ([Returned ok_true; Returned ok_true],
     mkWorld
       (mkDb (mkTables
                [mkUser (JsString "42") (JsString "alice2") (JsString "Alice")]
                [mkMessage (JsString "42") (JsString "hello") 0;
                 mkMessage (JsString "42") (JsString "hi again") 0])
             Idle 0)
       []).
Proof. reflexivity. Qed.

(** C1.  A valid, authenticated [POST /ingest] for which BEGIN and the user
    upsert succeed, the message insert rejects and the ROLLBACK of the catch
    block rejects as well (the server has become unreachable, say): nothing is
    committed, but the handler throws out of its catch block and never sends
    the 500 [{"error":"server_error"}] answer. *)
Theorem C1_rollback_rejected_no_answer :
  app Sample.open_cfg (Sample.good Sample.hello)
      (mkWorld Sample.empty_db [false; false; true; true])
  = (Thrown, mkWorld (mkDb (mkTables [] []) Idle 0) []).
Proof. reflexivity. Qed.

(** With a ROLLBACK that goes through, the same request is answered 500 and
    the store is back where it started. *)
Example rollback_accepted :
  app Sample.open_cfg (Sample.good Sample.hello)
      (mkWorld Sample.empty_db [false; false; true; false])
  = (Returned server_error, Sample.calm).
Proof. reflexivity. Qed.

(** ** What every request preserves *)

(** Whatever the request and whatever the faults, the service leaves no
    transaction open and keeps [users.id] a key: the two assumptions made on
    the starting store are invariants of the service. *)
Lemma app_invariant (cfg : Config) (req : Request) (w w' : World)
  (o : Outcome Response) :
  quiescent (db w) ->
  primary_key (committed (db w)) ->
  app cfg req w = (o, w') ->
  quiescent (db w') /\ primary_key (committed (db w')).
Proof.
  intros Q K. unfold app.
  destruct (matches GET "/health" req).
  { destruct w as [[c s k] fs]. unfold quiescent in *.
    cbn [db session committed] in *.
    destruct s as [|work]; [|destruct Q];
      unfold health; run_queries; intros H; inversion H; subst; now split. }
  destruct (matches GET "/" req).
  { intros H. inversion H; subst. now split. }
  destruct (matches POST "/ingest" req); [|intros H; inversion H; subst; now split].
  destruct (auth cfg req); [intros H; inversion H; subst; now split|].
  destruct (ipAllowed cfg req) eqn:P;
    [|rewrite (ingest_forbidden cfg req w P); intros H; inversion H; subst; now split].
  destruct (truthy (field req "userId")) eqn:U;
    [|rewrite (ingest_missing cfg req w P); [|now left];
      intros H; inversion H; subst; now split].
  destruct (truthy (field req "username")) eqn:N;
    [|rewrite (ingest_missing cfg req w P); [|now right; left];
      intros H; inversion H; subst; now split].
  destruct (truthy (field req "message")) eqn:M;
    [|rewrite (ingest_missing cfg req w P); [|now right; right];
      intros H; inversion H; subst; now split].
  rewrite (ingest_run cfg req w P U N M). intros H.
  destruct o as [r|].
  - assert (D : {r = ok_true} + {r <> ok_true}).
    { destruct r as [st [v|t]]; [|right; discriminate].
      destruct (Nat.eq_dec st 200) as [->|]; [|right; intros [=]; contradiction].
      destruct (Js.eqb v (JsObject [("ok", JsBool true)])) eqn:E.
      - left. apply eqb_eq in E. now subst.
      - right. intros [= ->]. now rewrite eqb_refl in E. }
    destruct D as [-> | ne].
    + rewrite (transaction_ok _ _ _ _ w w' Q H). split; [exact I|].
      cbn. now apply upsert_user_key.
    + destruct (transaction_all_or_nothing _ _ _ _ w w' _ Q H) as [C Q'].
      * intros [= E]. now apply ne.
      * split; [exact Q' | now rewrite C].
  - destruct (transaction_all_or_nothing _ _ _ _ w w' _ Q H) as [C Q'];
      [discriminate|]. split; [exact Q' | now rewrite C].
Qed.

(** * Further properties of the code *)

(** ** Trimming and splitting *)

Lemma trimStart_clean (s : string) :
  match Str.trimStart s with
  | EmptyString => True
  | String a _ => Str.is_space a = false
  end.
Proof.
  induction s as [|a s IH]; cbn; [exact I|].
  destruct (Str.is_space a) eqn:E; [exact IH | exact E].
Qed.

Lemma trimEnd_cons (a : ascii) (s : string) :
  Str.is_space a = false -> Str.trimEnd (String a s) = String a (Str.trimEnd s).
Proof. intros E. cbn. rewrite E. now destruct (Str.trimEnd s). Qed.

Lemma trimEnd_idem (s : string) : Str.trimEnd (Str.trimEnd s) = Str.trimEnd s.
Proof.
  induction s as [|a s IH]; [reflexivity|].
  cbn. destruct (Str.trimEnd s) as [|b kept] eqn:E.
  - destruct (Str.is_space a) eqn:Sa; [reflexivity|]. cbn. now rewrite Sa.
  - change (Str.trimEnd (String a (String b kept)) = String a (String b kept)).
    cbn. cbn in IH. now rewrite IH.
Qed.

Lemma trim_idem (s : string) : Str.trim (Str.trim s) = Str.trim s.
Proof.
  unfold Str.trim. pose proof (trimStart_clean s) as H.
  destruct (Str.trimStart s) as [|a t]; [reflexivity|].
  rewrite (trimEnd_cons a t H). cbn [Str.trimStart]. rewrite H.
  rewrite (trimEnd_cons a _ H). now rewrite trimEnd_idem.
Qed.

Lemma trimStart_mentions (c : ascii) (s : string) :
  mentions c s = false -> mentions c (Str.trimStart s) = false.
Proof.
  induction s as [|a s IH]; [reflexivity|]. cbn.
  destruct (Str.is_space a); [|now intros H].
  intros H. apply orb_false_iff in H as [_ H]. now apply IH.
Qed.

Lemma trimEnd_mentions (c : ascii) (s : string) :
  mentions c s = false -> mentions c (Str.trimEnd s) = false.
Proof.
  induction s as [|a s IH]; [reflexivity|]. cbn.
  intros H. apply orb_false_iff in H as [Ha H]. specialize (IH H).
  destruct (Str.trimEnd s) as [|b kept].
  - destruct (Str.is_space a); [reflexivity|]. cbn. now rewrite Ha.
  - cbn. cbn in IH. now rewrite Ha, IH.
Qed.

Lemma trim_mentions (c : ascii) (s : string) :
  mentions c s = false -> mentions c (Str.trim s) = false.
Proof. intros H. now apply trimEnd_mentions, trimStart_mentions. Qed.

Lemma split_pieces (c : ascii) (s : string) :
  forall piece, In piece (Str.split c s) -> mentions c piece = false.
Proof.
  induction s as [|a s IH]; cbn.
  - now intros piece [<- | []].
  - destruct (Ascii.eqb a c) eqn:E.
    + intros piece [<- | H]; [reflexivity | now apply IH].
    + destruct (Str.split c s) as [|p ps].
      * intros piece [<- | []]. cbn. now rewrite E.
      * intros piece [<- | H].
        -- cbn. rewrite E. apply IH. now left.
        -- apply IH. now right.
Qed.

Lemma split_whole (c : ascii) (s : string) :
  mentions c s = false -> Str.split c s = [s].
Proof.
  induction s as [|a s IH]; [reflexivity|]. cbn.
  intros H. apply orb_false_iff in H as [Ha H]. now rewrite Ha, (IH H).
Qed.

Lemma split_app (c : ascii) (s rest : string) :
  mentions c s = false ->
  Str.split c (s ++ String c rest) = s :: Str.split c rest.
Proof.
  induction s as [|a s IH]; cbn.
  - intros _. now rewrite Ascii.eqb_refl.
  - intros H. apply orb_false_iff in H as [Ha H]. now rewrite Ha, (IH H).
Qed.

Lemma split_nonempty (c : ascii) (s : string) : Str.split c s <> [].
Proof.
  destruct s as [|a s]; cbn; [discriminate|].
  destruct (Ascii.eqb a c); [discriminate|].
  now destruct (Str.split c s).
Qed.

Lemma split_length (c : ascii) (s : string) :
  length (Str.split c s) = S (occurrences c s).
Proof.
  induction s as [|a s IH]; [reflexivity|]. cbn.
  destruct (Ascii.eqb a c); cbn.
  - now rewrite IH.
  - pose proof (split_nonempty c s) as N.
    destruct (Str.split c s) as [|p ps]; [now elim N | exact IH].
Qed.

(** ** [auth], exactly *)

Lemma bearer_token_inv (header : option string) (s : string) :
  s <> "" -> bearer_token header = s -> header = Some ("Bearer " ++ s).
Proof.
  intros ne. unfold bearer_token.
  destruct (Str.startsWith "Bearer " (Str.or_empty header)) eqn:E.
  - destruct (startsWith_inv _ _ E) as [t H].
    rewrite H. change (Str.slice (String.length "Bearer ") ("Bearer " ++ t) = s -> header = Some ("Bearer " ++ s)).
    rewrite slice_app. intros <-.
    destruct header as [h|]; cbn in H; [now subst | discriminate].
  - intros <-. now elim ne.
Qed.

(** X1.  [auth] lets a request through exactly when a non-empty secret is
    configured and the authorization header is the seven characters
    ["Bearer "] followed by that secret, character for character: any other
    spelling of the scheme, any padding and an empty secret are refused. *)
Theorem auth_passes_exactly (cfg : Config) (req : Request) :
  auth cfg req = Next <->
  exists s, API_TOKEN cfg = Some s /\ s <> "" /\
            authorization req = Some ("Bearer " ++ s).
Proof.
  rewrite auth_next_iff. split; intros (s & S & ne & H); exists s; repeat split;
    try assumption.
  - now apply bearer_token_inv.
  - rewrite H. apply bearer_token_of.
Qed.

(** ** The allow list, entry by entry *)

Lemma allow_list_In (cfg : Config) (x : string) :
  In x (allow_list cfg) <->
  x <> "" /\
  exists e, In e (Str.split "," (Str.or_empty (ALLOW_IPS cfg))) /\ Str.trim e = x.
Proof.
  unfold allow_list, Str.nonempty. rewrite filter_In, in_map_iff.
  split.
  - intros [(e & T & E) N]. split; [|now exists e].
    intros ->. discriminate N.
  - intros [N (e & E & T)]. split; [now exists e|].
    destruct (String.eqb_spec x ""); [contradiction | reflexivity].
Qed.

Lemma allow_list_clean (cfg : Config) (x : string) :
  In x (allow_list cfg) ->
  x <> "" /\ mentions "," x = false /\ Str.trim x = x.
Proof.
  intros H. apply allow_list_In in H as (N & e & E & <-).
  repeat split; [exact N | | apply trim_idem].
  apply trim_mentions. exact (split_pieces "," _ e E).
Qed.

(** X2.  Every entry of the parsed allow list is non-empty, contains no
    comma and has no white space left at either end. *)
Theorem allow_list_entries (cfg : Config) (x : string) :
  In x (allow_list cfg) ->
  x <> "" /\ mentions "," x = false /\ Str.trim x = x.
Proof. exact (allow_list_clean cfg x). Qed.

Lemma allow_list_entries_witness :
  "10.0.0.2" <> "" /\ mentions "," "10.0.0.2" = false /\ Str.trim "10.0.0.2" = "10.0.0.2".
Proof.
  apply (allow_list_entries Sample.listed_cfg "10.0.0.2").
  right; left; reflexivity.
Defined.

(** X3.  The forwarded-for header wins over the socket: a request whose
    header is a listed address, alone or followed by a comma and anything,
    passes the allow list whatever peer address it comes from. *)
Theorem forwarded_for_overrides_peer
  (cfg : Config) (req : Request) (ip rest : string) :
  In ip (allow_list cfg) ->
  x_forwarded_for req = Some ip \/ x_forwarded_for req = Some (ip ++ "," ++ rest) ->
  ipAllowed cfg req = true.
Proof.
  intros L H. destruct (allow_list_clean cfg ip L) as (N & C & T).
  apply ipAllowed_iff. right. unfold effective_address.
  destruct ip as [|a ip]; [now elim N|].
  destruct H as [-> | ->].
  - rewrite (split_whole "," _ C). cbn [Str.first hd]. now rewrite T.
  - change (String a ip ++ "," ++ rest) with (String a (ip ++ String "," rest)).
    cbv iota.
    change (String a (ip ++ String "," rest)) with (String a ip ++ String "," rest).
    rewrite (split_app "," _ rest C). cbn [Str.first hd]. now rewrite T.
Qed.

Lemma forwarded_for_overrides_peer_witness :
  ipAllowed Sample.listed_cfg
    (Sample.post None (Some "10.0.0.2,203.0.113.7") "203.0.113.7" JsNull) = true.
Proof.
  apply (forwarded_for_overrides_peer Sample.listed_cfg _ "10.0.0.2" "203.0.113.7").
  - right; left; reflexivity.
  - right; reflexivity.
Defined.

(** X4.  With a non-empty allow list, a request that carries no forwarded-for
    value and has no peer address is refused: the empty address is never
    listed. *)
Theorem no_address_refused (cfg : Config) (req : Request) :
  allow_list cfg <> [] ->
  x_forwarded_for req = None \/ x_forwarded_for req = Some "" ->
  remoteAddress req = None \/ remoteAddress req = Some "" ->
  ipAllowed cfg req = false.
Proof.
  intros NE X R.
  destruct (ipAllowed cfg req) eqn:P; [|reflexivity].
  apply ipAllowed_iff in P as [E | L]; [contradiction|].
  apply allow_list_clean in L as (N & _).
  elim N. unfold effective_address.
  destruct X as [-> | ->], R as [-> | ->]; reflexivity.
Qed.

Lemma no_address_refused_witness :
  ipAllowed Sample.listed_cfg
    (mkRequest POST "/ingest" (Some "Bearer s3cret") None None Sample.hello) = false.
Proof.
  apply no_address_refused; [discriminate | now left | now left].
Defined.

Lemma blank_skip (a : ascii) (s : string) :
  Str.is_space a || Ascii.eqb a "," = true ->
  Str.nonempty (map Str.trim (Str.split "," (String a s)))
  = Str.nonempty (map Str.trim (Str.split "," s)).
Proof.
  intros H. cbn [Str.split].
  destruct (Ascii.eqb a ",") eqn:C; [reflexivity|].
  rewrite orb_false_r in H.
  pose proof (split_nonempty "," s) as N.
  destruct (Str.split "," s) as [|p ps]; [now elim N|].
  cbn [map]. unfold Str.trim at 1. cbn [Str.trimStart]. now rewrite H.
Qed.

(** X5.  An [ALLOW_IPS] that is unset, empty or made of commas and white
    space only configures no restriction: every request is allowed. *)
Theorem blank_allow_list_unrestricted (cfg : Config) (req : Request) :
  blank (Str.or_empty (ALLOW_IPS cfg)) = true ->
  allow_list cfg = [] /\ ipAllowed cfg req = true.
Proof.
  intros B.
  assert (E : allow_list cfg = []).
  { unfold allow_list. induction (Str.or_empty (ALLOW_IPS cfg)) as [|a s IH];
      [reflexivity|].
    cbn in B. apply andb_prop in B as [Ha B].
    rewrite (blank_skip a s Ha). now apply IH. }
  split; [exact E|]. apply ipAllowed_iff. now left.
Qed.

Lemma blank_allow_list_unrestricted_witness :
  allow_list (mkConfig None (Some " , ,")) = [] /\
  ipAllowed (mkConfig None (Some " , ,")) (Sample.good JsNull) = true.
Proof. apply blank_allow_list_unrestricted. reflexivity. Defined.

(** ** The cors origin *)

Lemma split_join (s : string) : String.concat "," (Str.split "," s) = s.
Proof.
  induction s as [|a s IH]; [reflexivity|].
  pose proof (split_nonempty "," s) as N.
  cbn [Str.split]. destruct (Ascii.eqb_spec a ",") as [-> | ne].
  - destruct (Str.split "," s) as [|p ps]; [now elim N|].
    rewrite <- IH. reflexivity.
  - destruct (Str.split "," s) as [|p ps]; [now elim N|].
    destruct ps as [|q qs]; rewrite <- IH; reflexivity.
Qed.

Lemma join_split (pieces : list string) :
  pieces <> [] ->
  Forall (fun piece => mentions "," piece = false) pieces ->
  Str.split "," (String.concat "," pieces) = pieces.
Proof.
  induction pieces as [|p ps IH]; intros N F; [now elim N|].
  inversion F as [|? ? Fp Fps]; subst.
  destruct ps as [|q qs].
  - cbn [String.concat]. now apply split_whole.
  - change (String.concat "," (p :: q :: qs))
      with (p ++ String "," (String.concat "," (q :: qs))).
    rewrite (split_app "," p _ Fp). f_equal. apply IH; [discriminate | exact Fps].
Qed.

(** X6.  The cors [origin] option is [true] exactly when [ALLOW_ORIGIN] is
    unset, empty or the single character [*].  Any other value gives the
    array of its comma-separated pieces, each trimmed, in order and with none
    dropped: the pieces are the comma-free strings that, joined by commas,
    give the value back. *)
Theorem cors_origin_cases (env : option string) :
  match cors_origin env with
  | AnyOrigin => env = None \/ env = Some "" \/ env = Some "*"
  | Origins allowed =>
      exists (s : string) (pieces : list string),
        env = Some s /\ s <> "" /\ s <> "*" /\
        String.concat "," pieces = s /\
        Forall (fun piece => mentions "," piece = false) pieces /\
        allowed = map Str.trim pieces
  end.
Proof.
  unfold cors_origin. destruct env as [[|a s]|]; cbn [Str.or_else Str.or_empty].
  - right; left; reflexivity.
  - destruct (String.eqb_spec (String a s) "*") as [-> | ne].
    + right; right; reflexivity.
    + exists (String a s), (Str.split "," (String a s)).
      repeat split; try assumption; try discriminate.
      * apply split_join.
      * apply Forall_forall. apply split_pieces.
  - left; reflexivity.
Qed.

Example cors_two_origins :
  cors_origin (Some "https://a.example , https://b.example")
  = Origins ["https://a.example"; "https://b.example"].
Proof. reflexivity. Qed.

Example cors_padded_star : cors_origin (Some " * ") = Origins ["*"].
Proof. reflexivity. Qed.

(** ** The routing table *)

Lemma routes_disjoint (req : Request) :
  matches GET "/health" req && matches GET "/" req = false /\
  matches GET "/health" req && matches POST "/ingest" req = false /\
  matches GET "/" req && matches POST "/ingest" req = false.
Proof.
  unfold matches. repeat split.
  - destruct (method_matches GET (method req)); [|reflexivity]. cbn [andb].
    unfold path_matches.
    change (strip_slash (Str.lowercase "/health")) with "/health".
    change (strip_slash (Str.lowercase "/")) with "".
    cbn [append].
    generalize (Str.lowercase (path req)). intros q.
    repeat match goal with
           | |- context [String.eqb q ?c] => destruct (String.eqb_spec q c); subst
           end; reflexivity || discriminate.
  - destruct (method req); cbn [method_matches Method_eqb andb];
      rewrite ?andb_false_r; reflexivity.
  - destruct (method req); cbn [method_matches Method_eqb andb];
      rewrite ?andb_false_r; reflexivity.
Qed.

(** X7.  No request is matched by two of the three routes, so the order in
    which they are registered decides nothing. *)
Theorem routes_exclusive (req : Request) :
  matches GET "/health" req && matches GET "/" req = false /\
  matches GET "/health" req && matches POST "/ingest" req = false /\
  matches GET "/" req && matches POST "/ingest" req = false.
Proof. exact (routes_disjoint req). Qed.

(** ** The users upsert *)

Lemma upsert_user_again (p1 a2 a3 b2 b3 : JsValue) (us : list UserRow) :
  upsert_user p1 b2 b3 (upsert_user p1 a2 a3 us) = upsert_user p1 b2 b3 us.
Proof.
  induction us as [|u us IH]; cbn.
  - now rewrite eqb_refl.
  - destruct (Js.eqb (id u) p1) eqn:E; cbn; rewrite E; [reflexivity | now rewrite IH].
Qed.

(** X8.  The upsert is last-write-wins: upserting a user twice leaves the
    table the second upsert alone would leave; in particular repeating an
    upsert changes nothing. *)
Theorem upsert_last_write_wins (p1 a2 a3 b2 b3 : JsValue) (us : list UserRow) :
  upsert_user p1 b2 b3 (upsert_user p1 a2 a3 us) = upsert_user p1 b2 b3 us /\
  upsert_user p1 a2 a3 (upsert_user p1 a2 a3 us) = upsert_user p1 a2 a3 us.
Proof. split; apply upsert_user_again. Qed.

Lemma upsert_user_frame (p p1 p2 p3 : JsValue) (us : list UserRow) :
  p <> p1 -> rows_of p (upsert_user p1 p2 p3 us) = rows_of p us.
Proof.
  intros ne. unfold rows_of.
  induction us as [|u us IH]; cbn [upsert_user filter id].
  - rewrite eqb_neq; [reflexivity | congruence].
  - destruct (Js.eqb (id u) p1) eqn:E.
    + apply eqb_eq in E. cbn [filter id]. rewrite E.
      rewrite eqb_neq; [reflexivity | congruence].
    + cbn [filter]. now rewrite IH.
Qed.



(** ** What a request does to the store *)

Lemma answered_ok_iff (o : Outcome Response) :
  answered_ok o = true <-> o = Returned ok_true.
Proof.
  split.
  - destruct o as [[code [v|t]]|]; cbn; try discriminate.
    intros H. apply andb_prop in H as [C V].
    apply Nat.eqb_eq in C. apply eqb_eq in V. now subst.
  - now intros ->.
Qed.

(** The whole application, check by check. *)
Lemma app_unfold (cfg : Config) (req : Request) (w : World) :
  app cfg req w =
  if matches GET "/health" req then health req w
  else if matches GET "/" req then (Returned greeting, w)
  else if matches POST "/ingest" req then
    match auth cfg req with
    | Respond r => (Returned r, w)
    | Next =>
        if negb (ipAllowed cfg req) then (Returned forbidden_ip, w)
        else if negb (truthy (field req "userId"))
                || negb (truthy (field req "username"))
                || negb (truthy (field req "message"))
        then (Returned missing_fields, w)
        else transaction (field req "userId") (field req "username")
               (field req "displayName") (field req "message") w
    end
  else (Returned not_found, w).
Proof.
  unfold app.
  destruct (matches GET "/health" req); [reflexivity|].
  destruct (matches GET "/" req); [reflexivity|].
  destruct (matches POST "/ingest" req); [|reflexivity].
  destruct (auth cfg req); [reflexivity|].
  unfold ingest. destruct (negb (ipAllowed cfg req)); [reflexivity|].
  unfold bind. rewrite destructure_guarded. unfold field.
  now destruct (_ || _).
Qed.

Lemma health_effect (req : Request) (w w' : World) (o : Outcome Response) :
  health req w = (o, w') ->
  (o = Returned ok_true \/ o = Returned db_unreachable) /\
  committed (db w') = committed (db w) /\
  clock (db w') = clock (db w) /\
  (quiescent (db w) -> quiescent (db w')).
Proof.
  destruct w as [[c s k] fs]. unfold health, quiescent.
  destruct s as [|work]; run_queries; intros H; inversion H; subst; cbn; auto.
Qed.

Lemma transaction_effect (u n d m : JsValue) (w w' : World) (o : Outcome Response) :
  quiescent (db w) ->
  transaction u n d m w = (o, w') ->
  (o = Returned ok_true /\
   db w' = mkDb (ingested u n d m (clock (db w)) (committed (db w))) Idle (clock (db w)))
  \/
  ((o = Returned server_error \/ o = Thrown) /\
   committed (db w') = committed (db w) /\
   clock (db w') = clock (db w) /\
   quiescent (db w')).
Proof.
  destruct w as [[c s k] fs]. unfold quiescent. cbn [db session committed clock].
  destruct s as [|work]; [intros _ | intros []];
    run_queries; intros H; inversion H; subst; cbn; auto 7.
Qed.

(** A request either is an ingestion answered [{"ok":true}], and then the
    committed tables are the old ones with its two rows written, or leaves
    the committed tables as they were. *)
Lemma app_effect (cfg : Config) (req : Request) (w w' : World)
  (o : Outcome Response) :
  quiescent (db w) ->
  app cfg req w = (o, w') ->
  if matches POST "/ingest" req && answered_ok o
  then db w' = mkDb (ingested (field req "userId") (field req "username")
                       (field req "displayName") (field req "message")
                       (clock (db w)) (committed (db w)))
                    Idle (clock (db w))
  else committed (db w') = committed (db w) /\
       clock (db w') = clock (db w) /\
       quiescent (db w').
Proof.
  intros Q. rewrite app_unfold.
  pose proof (routes_disjoint req) as (D1 & D2 & D3).
  destruct (matches GET "/health" req) eqn:H1.
  { cbn in D2. rewrite D2. cbn [andb]. intros H.
    apply health_effect in H as (_ & C & K & Q'). auto. }
  destruct (matches GET "/" req) eqn:H2.
  { cbn in D3. rewrite D3. cbn [andb]. intros H. inversion H; subst. auto. }
  destruct (matches POST "/ingest" req) eqn:H3;
    [|intros H; inversion H; subst; cbn; auto].
  cbn [andb].
  destruct (auth_cases cfg req) as [-> | ->];
    [intros H; inversion H; subst; cbn; auto|].
  destruct (negb (ipAllowed cfg req)); [intros H; inversion H; subst; cbn; auto|].
  destruct (_ || _); [intros H; inversion H; subst; cbn; auto|].
  intros H. apply (transaction_effect _ _ _ _ _ _ _ Q) in H
    as [[-> D] | [[-> | ->] (C & K & Q')]]; cbn; auto.
Qed.

(** X9.  The committed tables change only when an ingestion is answered
    [{"ok":true}]: every refusal, every failure and every other route leaves
    them exactly as they were. *)
Theorem store_changes_only_on_success
  (cfg : Config) (req : Request) (w w' : World) (o : Outcome Response) :
  quiescent (db w) ->
  app cfg req w = (o, w') ->
  committed (db w') <> committed (db w) ->
  is_ingest req /\ o = Returned ok_true.
Proof.
  intros Q H changed. pose proof (app_effect cfg req w w' o Q H) as E.
  destruct (matches POST "/ingest" req && answered_ok o) eqn:B.
  - apply andb_prop in B as [I A]. split; [exact I | now apply answered_ok_iff].
  - now destruct E as [same _].
Qed.

Lemma store_changes_only_on_success_witness :
  is_ingest (Sample.good Sample.hello) /\ Returned ok_true = Returned ok_true.
Proof.
  apply (store_changes_only_on_success Sample.open_cfg (Sample.good Sample.hello)
           Sample.calm
           (snd (app Sample.open_cfg (Sample.good Sample.hello) Sample.calm))
           (Returned ok_true));
    [exact I | reflexivity | discriminate].
Defined.



(** X11.  An ingestion whose [userId] is a string touches the row of that
    identifier only: the rows of every other string identifier are after the
    request what they were before. *)
Theorem other_users_untouched
  (cfg : Config) (req : Request) (w w' : World) (o : Outcome Response)
  (mine other : string) :
  quiescent (db w) ->
  app cfg req w = (o, w') ->
  field req "userId" = JsString mine ->
  other <> mine ->
  rows_of (JsString other) (users (committed (db w')))
  = rows_of (JsString other) (users (committed (db w))).
Proof.
  intros Q H U ne. pose proof (app_effect cfg req w w' o Q H) as E.
  destruct (matches POST "/ingest" req && answered_ok o).
  - rewrite E, U. cbn [committed ingested users].
    apply upsert_user_frame. congruence.
  - now destruct E as [-> _].
Qed.

Lemma other_users_untouched_witness :
  let before := mkDb (mkTables [mkUser (JsString "7") (JsString "bob") JsNull] []) Idle 0 in
  rows_of (JsString "7") (users (committed (db (snd
    (app Sample.open_cfg (Sample.good Sample.hello) (mkWorld before []))))))
  = [mkUser (JsString "7") (JsString "bob") JsNull].
Proof.
  apply (other_users_untouched Sample.open_cfg (Sample.good Sample.hello)
           (mkWorld (mkDb (mkTables [mkUser (JsString "7") (JsString "bob") JsNull] [])
                          Idle 0) [])
           _ (Returned ok_true) "42" "7");
    [exact I | reflexivity | reflexivity | discriminate].
Defined.

(** X12.  Nothing is ever deleted: after any request the message rows are
    the old ones and at most one new row, and the user identifiers are the
    old ones and at most one new identifier, in whatever order the tables
    hold them. *)
Theorem tables_only_grow
  (cfg : Config) (req : Request) (w w' : World) (o : Outcome Response) :
  quiescent (db w) ->
  app cfg req w = (o, w') ->
  exists (ms : list MessageRow) (ids : list JsValue),
    Permutation (messages (committed (db w')))
                (messages (committed (db w)) ++ ms) /\
    Permutation (map id (users (committed (db w'))))
                (map id (users (committed (db w))) ++ ids) /\
    length ms <= 1 /\ length ids <= 1.
Proof.
  intros Q H. pose proof (app_effect cfg req w w' o Q H) as E.
  destruct (matches POST "/ingest" req && answered_ok o).
  - rewrite E. cbn [committed ingested users messages]. unfold insert_message.
    rewrite upsert_user_ids.
    exists [mkMessage (field req "userId") (field req "message") (clock (db w))].
    destruct (existsb _ _).
    + exists []. rewrite app_nil_r. repeat split; cbn; auto; lia.
    + exists [field req "userId"]. repeat split; cbn; auto; lia.
  - destruct E as [-> _]. exists [], []. rewrite !app_nil_r.
    repeat split; cbn; auto; lia.
Qed.

Lemma tables_only_grow_witness :
  exists (ms : list MessageRow) (ids : list JsValue),
    Permutation
      (messages (committed (db (snd
         (app Sample.open_cfg (Sample.good Sample.hello) Sample.calm)))))
      ([] ++ ms) /\
    Permutation
      (map id (users (committed (db (snd
         (app Sample.open_cfg (Sample.good Sample.hello) Sample.calm))))))
      ([] ++ ids) /\
    length ms <= 1 /\ length ids <= 1.
Proof.
  apply (tables_only_grow Sample.open_cfg (Sample.good Sample.hello) Sample.calm _
           (Returned ok_true)); [exact I | reflexivity].
Defined.

(** X13.  The only place the application can throw is the transaction block
    of the ingestion handler: a request whose handling throws is an ingestion
    that passed the credential check, the allow list and the field
    validation.  None of the refusals and neither of the other routes can
    leave a request unanswered. *)
Theorem throws_only_in_transaction
  (cfg : Config) (req : Request) (w w' : World) :
  app cfg req w = (Thrown, w') ->
  is_ingest req /\ auth cfg req = Next /\ ipAllowed cfg req = true /\
  truthy (field req "userId") = true /\
  truthy (field req "username") = true /\
  truthy (field req "message") = true.
Proof.
  rewrite app_unfold.
  destruct (matches GET "/health" req).
  { intros H. apply health_effect in H as ([|] & _); discriminate. }
  destruct (matches GET "/" req); [discriminate|].
  destruct (matches POST "/ingest" req) eqn:I; [|discriminate].
  destruct (auth cfg req); [discriminate|].
  destruct (ipAllowed cfg req); [|discriminate]. cbn [negb].
  destruct (truthy (field req "userId")); [|discriminate].
  destruct (truthy (field req "username")); [|discriminate].
  destruct (truthy (field req "message")); [|discriminate].
  intros _. now repeat split.
Qed.

Lemma throws_only_in_transaction_witness :
  is_ingest (Sample.good Sample.hello) /\
  auth Sample.open_cfg (Sample.good Sample.hello) = Next /\
  ipAllowed Sample.open_cfg (Sample.good Sample.hello) = true /\
  truthy (field (Sample.good Sample.hello) "userId") = true /\
  truthy (field (Sample.good Sample.hello) "username") = true /\
  truthy (field (Sample.good Sample.hello) "message") = true.
Proof.
  apply (throws_only_in_transaction Sample.open_cfg (Sample.good Sample.hello)
           (mkWorld Sample.empty_db [true; true])
           (mkWorld Sample.empty_db [])).
  reflexivity.
Defined.

(** X14.  The health route only reads: in any state of the session it
    issues one query, answers one of its two bodies, and leaves the committed
    tables as they were. *)
Theorem health_reads_only
  (cfg : Config) (req : Request) (w w' : World) (o : Outcome Response) :
  is_health req ->
  app cfg req w = (o, w') ->
  (o = Returned ok_true \/ o = Returned db_unreachable) /\
  committed (db w') = committed (db w) /\
  faults w' = tl (faults w).
Proof.
  intros I. rewrite (app_health cfg req I). intros H.
  destruct (health_effect req w w' o H) as (A & C & _).
  repeat split; try assumption.
  revert H. destruct w as [[c s k] fs]. unfold health.
  destruct s as [|work]; run_queries; intros H; inversion H; reflexivity.
Qed.

Lemma health_reads_only_witness :
  let busy := mkWorld (mkDb (mkTables [] []) (InTx (mkTables [] [])) 0) [false; true] in
  let req := mkRequest GET "/health" None None None JsUndefined in
  (fst (app Sample.open_cfg req busy) = Returned ok_true
   \/ fst (app Sample.open_cfg req busy) = Returned db_unreachable) /\
  committed (db (snd (app Sample.open_cfg req busy))) = mkTables [] [] /\
  faults (snd (app Sample.open_cfg req busy)) = [true].
Proof.
  apply (health_reads_only Sample.open_cfg
           (mkRequest GET "/health" None None None JsUndefined)
           (mkWorld (mkDb (mkTables [] []) (InTx (mkTables [] [])) 0) [false; true]));
    reflexivity.
Defined.

(** ** Ingestion when the store answers *)




(** ** Any sequence of requests *)

Lemma quiescent_idle (d : Db) : quiescent d <-> session d = Idle.
Proof.
  unfold quiescent. destruct (session d); split; intros H; auto;
    [destruct H | discriminate H].
Qed.



(** A handler that throws leaves the next requests an idle session: they are
    answered as if nothing had happened. *)
Example after_a_throw :
  fst (serve Sample.open_cfg
         [Sample.good Sample.hello;
          mkRequest GET "/health" None None None JsUndefined;
          Sample.good Sample.hi_again]
         (mkWorld Sample.empty_db [false; false; true; true]))
  = [Thrown; Returned ok_true; Returned ok_true].
Proof. reflexivity. Qed.

(** ** Invariants of the service *)

(** X17.  From an idle session and a [users] table with no two rows of one
    identifier, every request, whatever it is and whatever queries the store
    rejects, ends with the session idle again (no transaction open, even when
    the handler throws) and with [users.id] still a key. *)
Theorem session_and_key_kept
  (cfg : Config) (req : Request) (w w' : World) (o : Outcome Response) :
  session (db w) = Idle ->
  primary_key (committed (db w)) ->
  app cfg req w = (o, w') ->
  session (db w') = Idle /\ primary_key (committed (db w')).
Proof.
  intros S K H. apply quiescent_idle in S.
  destruct (app_invariant cfg req w w' o S K H) as [Q K'].
  split; [now apply quiescent_idle | exact K'].
Qed.

Lemma session_and_key_kept_witness :
  session (db (snd (app Sample.open_cfg (Sample.good Sample.hello)
                      (mkWorld Sample.empty_db [false; false; true; true])))) = Idle /\
  primary_key (committed (db (snd (app Sample.open_cfg (Sample.good Sample.hello)
                      (mkWorld Sample.empty_db [false; false; true; true]))))).
Proof.
  apply (session_and_key_kept Sample.open_cfg (Sample.good Sample.hello)
           (mkWorld Sample.empty_db [false; false; true; true]) _ Thrown);
    [reflexivity | apply NoDup_nil | reflexivity].
Defined.

(** ** The address and the body, edge by edge *)

(** X18.  Of a comma-separated forwarded-for header only the first entry
    counts, trimmed; the later entries and the peer address play no part. *)
Theorem first_forwarded_entry_counts (req : Request) (entry rest : string) :
  mentions "," entry = false ->
  x_forwarded_for req = Some (entry ++ "," ++ rest) ->
  client_ip req = Str.trim entry.
Proof.
  intros C H. unfold client_ip. rewrite H.
  assert (E : Str.or_else (Some (entry ++ "," ++ rest)) (remoteAddress req)
              = Some (entry ++ "," ++ rest)) by now destruct entry.
  rewrite E. cbn [Str.or_empty].
  change (entry ++ "," ++ rest) with (entry ++ String "," rest).
  now rewrite (split_app "," entry rest C).
Qed.

Lemma first_forwarded_entry_counts_witness :
  client_ip (Sample.post None (Some " 10.0.0.2 , 198.51.100.4,10.0.0.1") "203.0.113.7" JsNull)
  = "10.0.0.2".
Proof.
  apply (first_forwarded_entry_counts
           (Sample.post None (Some " 10.0.0.2 , 198.51.100.4,10.0.0.1") "203.0.113.7" JsNull)
           " 10.0.0.2 " " 198.51.100.4,10.0.0.1"); reflexivity.
Defined.

(** X19.  A parsed body that is not an object (an array, a string, a number,
    a boolean, [null] or nothing at all) has none of the required fields: an
    authenticated, allow-listed ingestion with such a body is answered 400
    missing fields, never an exception, and nothing reaches the store. *)
Theorem non_object_body_is_missing_fields
  (cfg : Config) (req : Request) (w : World) :
  is_ingest req ->
  auth cfg req = Next ->
  ipAllowed cfg req = true ->
  (forall props, body req <> JsObject props) ->
  app cfg req w = (Returned missing_fields, w).
Proof.
  intros I A P B. rewrite (app_ingest cfg req I), A.
  apply ingest_missing; [exact P|]. left. unfold field.
  destruct (body req) as [| |b|n|s|xs|ps]; try reflexivity.
  now elim (B ps).
Qed.

Lemma non_object_body_is_missing_fields_witness :
  app Sample.open_cfg (Sample.good (JsArray [Sample.hello])) Sample.calm
  = (Returned missing_fields, Sample.calm).
Proof.
  apply non_object_body_is_missing_fields; try reflexivity.
  intros props. discriminate.
Defined.

(** ** The answers *)

Lemma transaction_answers (u n d m : JsValue) (w : World) :
  fst (transaction u n d m w) = Returned ok_true \/
  fst (transaction u n d m w) = Returned server_error \/
  fst (transaction u n d m w) = Thrown.
Proof.
  unfold transaction, try_catch, bind.
  repeat match goal with
         | |- context [pool_query ?st ?w] => destruct (pool_query st w) as [[[]|] ?]
         end; cbn; auto.
Qed.

(** X20.  Whenever the application's own code sends the answer, that answer
    is one of eight fixed responses, whatever the request and whatever the
    store does.  (The one case in which it sends none is the throw out of the
    transaction block; what the caller then receives is the framework's.) *)
Theorem answers_are_fixed
  (cfg : Config) (req : Request) (w w' : World) (r : Response) :
  app cfg req w = (Returned r, w') ->
  In r [ok_true; greeting; db_unreachable; unauthorized; forbidden_ip;
        missing_fields; server_error; not_found].
Proof.
  rewrite app_unfold.
  destruct (matches GET "/health" req).
  { intros H. apply health_effect in H as ([[= ->] | [= ->]] & _); cbn; auto. }
  destruct (matches GET "/" req); [intros [= <- _]; cbn; auto|].
  destruct (matches POST "/ingest" req); [|intros [= <- _]; cbn; auto 10].
  destruct (auth_cases cfg req) as [-> | ->]; [intros [= <- _]; cbn; auto 10|].
  destruct (negb (ipAllowed cfg req)); [intros [= <- _]; cbn; auto 10|].
  destruct (_ || _); [intros [= <- _]; cbn; auto 10|].
  intros H.
  destruct (transaction_answers (field req "userId") (field req "username")
              (field req "displayName") (field req "message") w) as [T | [T | T]];
    rewrite H in T; cbn in T; try discriminate T;
    injection T as ->; cbn; auto 10.
Qed.

Lemma answers_are_fixed_witness :
  In server_error
     [ok_true; greeting; db_unreachable; unauthorized; forbidden_ip;
      missing_fields; server_error; not_found].
Proof.
  apply (answers_are_fixed Sample.open_cfg (Sample.good Sample.hello)
           (mkWorld Sample.empty_db [true]) Sample.calm).
  reflexivity.
Defined.
